(** * Argument resolution of [MCPPrompt] (src/prompts/BasePrompt.ts)

    A shallow embedding of the prompt base class: the introspection getter
    [promptDefinition], the default-merge and validation pipeline of
    [getMessages], and the [fetch] helper.

    Modelling conventions.
    - A JavaScript value is a [value]; the own properties of a plain
      object are a finite map from property names to values
      ([gmap string value]).  A property can be present and hold
      [undefined], which the [in] operator tells apart from an absent
      property, so [undefined] is a value of its own.
    - The objects that the class and zod read ([{ ...args }], the object
      that zod returns, the values inside them) are plain objects: their
      prototype is [Object.prototype], so the [in] operator and a property
      read also see its members ([toString], [constructor], ...).
    - Numbers are the integer-valued doubles, carried by [Z].
    - A zod type is used by the class only through [_def.typeName],
      [isOptional()], [optional()] and its parse function, so it is a record
      of a type tag and a parse function (zod 3, which never writes to the
      value it parses); the zod types used below are given as instances.
      Recent versions of zod leave the key [__proto__] out of the object
      they return; this is not modelled (only a computed property name
      declares a field of that name).
    - A schema is the list [Object.entries(this.schema)]: the entries in
      the order of property enumeration (the integer-like keys in
      ascending order, then the other keys in the order of their
      declaration); the keys of an object are pairwise distinct
      ([wf_schema]). *)

From stdpp Require Import gmap strings list fin_maps pretty.

Open Scope string_scope.
Open Scope list_scope.

(** ** JavaScript values *)

#[local] Unset Elimination Schemes.

Inductive value : Type :=
  | VUndefined
  | VNull
  | VBool (b : bool)
  | VNumber (n : Z)
  | VString (s : string)
  | VArray (l : list value)
  | VObject (o : gmap string value)
  | VFunction (name : string).

#[local] Set Elimination Schemes.

(** [Record<string, unknown>]. *)
Abbreviation obj := (gmap string value).

(** [v !== undefined] *)
Definition is_defined (v : value) : bool :=
  match v with VUndefined => false | _ => true end.

(** The members of [Object.prototype]: built-in functions, and the
    accessor [__proto__], which on a plain object returns
    [Object.prototype] itself, an object without enumerable properties. *)
Definition Object_prototype : obj :=
  list_to_map
    [ ("constructor", VFunction "Object");
      ("__defineGetter__", VFunction "__defineGetter__");
      ("__defineSetter__", VFunction "__defineSetter__");
      ("hasOwnProperty", VFunction "hasOwnProperty");
      ("__lookupGetter__", VFunction "__lookupGetter__");
      ("__lookupSetter__", VFunction "__lookupSetter__");
      ("isPrototypeOf", VFunction "isPrototypeOf");
      ("propertyIsEnumerable", VFunction "propertyIsEnumerable");
      ("toString", VFunction "toString");
      ("valueOf", VFunction "valueOf");
      ("__proto__", VObject ∅);
      ("toLocaleString", VFunction "toLocaleString") ].

(** The properties that a read or the [in] operator finds on a plain
    object: its own ones, then those of its prototype. *)
Definition visible (o : obj) : obj := o ∪ Object_prototype.

(** [data[key]]: reading a property that is not found gives
    [undefined]. *)
Definition get (o : obj) (key : string) : value :=
  default VUndefined (visible o !! key).

(** [key in o] *)
Definition has_key (key : string) (o : obj) : bool :=
  bool_decide (is_Some (visible o !! key)).

(** The names that every plain object has without owning them. *)
Definition is_inherited (key : string) : bool :=
  bool_decide (is_Some (Object_prototype !! key)).

(** ** Zod types *)

Module Zod.

(** A zod type as the class sees it: [_def.typeName] and the parse
    function ([None] stands for a thrown [ZodError]). *)
Record ZodType : Type := mkZod {
  typeName : string;
  parse : value → option value
}.

(** [ZodType.isOptional()] is [this.safeParse(undefined).success]. *)
Definition isOptional (t : ZodType) : bool :=
  bool_decide (is_Some (parse t VUndefined)).

(** [ZodType.optional()] wraps the type in a [ZodOptional], which returns
    [undefined] for [undefined] and otherwise asks the inner type. *)
Definition optional (t : ZodType) : ZodType :=
  mkZod "ZodOptional"
    (λ v, match v with VUndefined => Some VUndefined | _ => parse t v end).

Definition z_string : ZodType :=
  mkZod "ZodString" (λ v, match v with VString _ => Some v | _ => None end).

Definition z_number : ZodType :=
  mkZod "ZodNumber" (λ v, match v with VNumber _ => Some v | _ => None end).

Definition z_boolean : ZodType :=
  mkZod "ZodBoolean" (λ v, match v with VBool _ => Some v | _ => None end).

Definition z_any : ZodType := mkZod "ZodAny" Some.

(** [z.array(t)]: every element is parsed by [t]. *)
Definition z_array (t : ZodType) : ZodType :=
  mkZod "ZodArray"
    (λ v, match v with
          | VArray l => VArray <$> mapM (parse t) l
          | _ => None
          end).

(** [z.record(t)]: every property value is parsed by [t]. *)
Definition z_record (t : ZodType) : ZodType :=
  mkZod "ZodRecord"
    (λ v, match v with
          | VObject o =>
              (λ l, VObject (list_to_map l)) <$>
              mapM (λ kv, pair kv.1 <$> parse t kv.2) (map_to_list o)
          | _ => None
          end).

(** [z.coerce.boolean()]: a [ZodBoolean] that first applies [Boolean(_)]
    to its input, so it accepts every input. *)
Definition truthy (v : value) : bool :=
  match v with
  | VUndefined | VNull => false
  | VBool b => b
  | VNumber n => negb (n =? 0)%Z
  | VString s => negb (String.eqb s "")
  | VArray _ | VObject _ | VFunction _ => true
  end.

Definition coerce_boolean : ZodType :=
  mkZod "ZodBoolean" (λ v, Some (VBool (truthy v))).

(** [z.function()]: accepts a function (what it returns wraps the
    function; functions are told apart by their name only). *)
Definition z_function : ZodType :=
  mkZod "ZodFunction" (λ v, match v with VFunction _ => Some v | _ => None end).

(** [t.transform(f)]: a [ZodEffects] that applies [f] to what [t]
    returns. *)
Definition transform (t : ZodType) (f : value → value) : ZodType :=
  mkZod "ZodEffects" (λ v, f <$> parse t v).

(** The result of [ZodObject.parse]: the stripped object, or the keys of
    the shape whose value was refused. *)
Inductive result : Type :=
  | Ok (o : obj)
  | ZodError (issues : list string).

(** One key of the shape, as [ZodObject._parse] and [mergeObjectSync]
    treat it: the property is read with [data[key]] and parsed; the key is
    set in the output when the parsed value is defined or the key is in
    the data. *)
Definition parse_key (data : obj) (key : string) (t : ZodType)
    (acc : result) : result :=
  match parse t (get data key), acc with
  | Some w, Ok o =>
      Ok (if is_defined w || has_key key data then <[key := w]> o else o)
  | Some _, ZodError e => ZodError e
  | None, Ok _ => ZodError [key]
  | None, ZodError e => ZodError (e ++ [key])
  end.

(** [z.object(shape).parse(data)] with the default [strip] policy for
    unknown keys: only the keys of the shape are visited, in order. *)
Definition object_parse (shape : list (string * ZodType)) (data : obj)
    : result :=
  foldl (λ acc kt, parse_key data kt.1 kt.2 acc) (Ok ∅) shape.

(** [z.object(shape)] as a field type. *)
Definition z_object (shape : list (string * ZodType)) : ZodType :=
  mkZod "ZodObject"
    (λ v, match v with
          | VObject o =>
              match object_parse shape o with
              | Ok o' => Some (VObject o')
              | ZodError _ => None
              end
          | _ => None
          end).

End Zod.

(** ** Field schemas: [PromptArgumentSchema<T>] *)

Module Field.

(** One entry of the schema.  [required] is [None] when the property is
    not declared; [default] is [VUndefined] when it is not declared (the
    class only ever compares it with [undefined]). *)
Record FieldSchema : Type := mk {
  type : Zod.ZodType;
  description : string;
  required : option bool;
  default : value
}.

End Field.

(** [Object.entries(this.schema)]: the fields in the order of property
    enumeration. *)
Abbreviation Schema := (list (string * Field.FieldSchema)).

(** The entries of an object have pairwise distinct keys. *)
Definition wf_schema (schema : Schema) : Prop := NoDup schema.*1.

(** [schema.required !== false] *)
Definition required_not_false (schema : Field.FieldSchema) : bool :=
  match Field.required schema with Some false => false | _ => true end.

(** ** Promises *)

Inductive Error : Type :=
  | ZodFailure (issues : list string)
  | HttpError (message : string)
  | OtherError (message : string).

Inductive Promise (A : Type) : Type :=
  | Resolved (a : A)
  | Rejected (e : Error).

Arguments Resolved {A} a.
Arguments Rejected {A} e.

(** [await p; k] *)
Definition await {A B : Type} (p : Promise A) (k : A → Promise B)
    : Promise B :=
  match p with
  | Resolved a => k a
  | Rejected e => Rejected e
  end.

Notation "x ← 'await' p ; k" := (await p (λ x, k))
  (at level 20, p at level 100, k at level 200, only parsing).

(** ** The class [MCPPrompt] *)

Module MCPPrompt.

Record Argument : Type := mkArgument {
  arg_name : string;
  arg_description : string;
  arg_required : bool
}.

Record Definition_ : Type := mkDefinition {
  def_name : string;
  def_description : string;
  arguments : list Argument
}.

(** The callback of the [map] in [promptDefinition]. *)
Definition argument_of (entry : string * Field.FieldSchema) : Argument :=
  let '(name, schema) := entry in
  {| arg_name := name;
     arg_description := Field.description schema;
     arg_required :=
       if required_not_false schema
          && negb (is_defined (Field.default schema))
       then true else false |}.

(** [get promptDefinition()] *)
Definition promptDefinition (name description : string) (schema : Schema)
    : Definition_ :=
  {| def_name := name;
     def_description := description;
     arguments := map argument_of schema |}.

(** The chain of tests on [zodType._def?.typeName] in [getMessages]:
    the value assigned to the key, if any. *)
Definition sensible_default (typeName : string) : option value :=
  if String.eqb typeName "ZodString" then Some (VString "")
  else if String.eqb typeName "ZodBoolean" then Some (VBool false)
  else if String.eqb typeName "ZodNumber" then Some (VNumber 0)
  else if String.eqb typeName "ZodArray" then Some (VArray [])
  else if String.eqb typeName "ZodObject" then Some (VObject ∅)
  else None.

(** The body of the loop over [Object.entries(this.schema)]. *)
Definition apply_default (argsWithDefaults : obj)
    (entry : string * Field.FieldSchema) : obj :=
  let '(key, schema) := entry in
  if negb (has_key key argsWithDefaults) then
    if is_defined (Field.default schema) then
      <[key := Field.default schema]> argsWithDefaults
    else if required_not_false schema then
      match sensible_default (Zod.typeName (Field.type schema)) with
      | Some v => <[key := v]> argsWithDefaults
      | None => argsWithDefaults
      end
    else argsWithDefaults
  else argsWithDefaults.

(** The value the loop body assigns when [key in argsWithDefaults] is
    false, if it assigns one (lemma [apply_default_lookup]). *)
Definition assigned (schema : Field.FieldSchema) : option value :=
  if is_defined (Field.default schema) then Some (Field.default schema)
  else if required_not_false schema
       then sensible_default (Zod.typeName (Field.type schema))
       else None.

(** [argsWithDefaults] after the loop; it starts as the copy
    [{ ...args }]. *)
Definition merge (schema : Schema) (args : obj) : obj :=
  foldl apply_default args schema.

(** [isOptional] of the validation step. *)
Definition isOptional (schema : Field.FieldSchema) : bool :=
  negb (required_not_false schema)
  || Zod.isOptional (Field.type schema)
  || is_defined (Field.default schema).

(** The rule of one field: [isOptional ? schema.type.optional() :
    schema.type]. *)
Definition rule (schema : Field.FieldSchema) : Zod.ZodType :=
  if isOptional schema then Zod.optional (Field.type schema)
  else Field.type schema.

Definition schemaEntries (schema : Schema) : list (string * Zod.ZodType) :=
  map (λ '(key, schema), (key, rule schema)) schema.

(** [zodSchema.parse(argsWithDefaults)]: the validated arguments.
    [Object.fromEntries] keeps the entries as they are, their keys being
    distinct. *)
Definition resolve (schema : Schema) (args : obj) : Zod.result :=
  Zod.object_parse (schemaEntries schema) (merge schema args).

Section Messages.

(** The abstract members of the class. *)
Context {Messages : Type}.
Variable generateMessages : obj → Promise Messages.

(** [async getMessages(args = {})] *)
Definition getMessages (schema : Schema) (args : option obj)
    : Promise Messages :=
  let args := from_option id ∅ args in
  match resolve schema args with
  | Zod.Ok validatedArgs => generateMessages validatedArgs
  | Zod.ZodError issues => Rejected (ZodFailure issues)
  end.

End Messages.

(** *** The [fetch] helper *)

Record Response : Type := mkResponse {
  ok : bool;
  status : nat;
  json : Promise value
}.

Section Fetch.

(** The global [fetch], with the request options left abstract. *)
Context {RequestInit : Type}.
Variable global_fetch : string → option RequestInit → Promise Response.

Definition fetch (url : string) (init : option RequestInit)
    : Promise value :=
  response ← await global_fetch url init;
  if negb (ok response) then
    Rejected (HttpError ("HTTP error! status: " +:+ pretty (status response)))
  else json response.

End Fetch.

End MCPPrompt.

(** ** The schemas of the test suite *)

Module Fixtures.

Import Field.

Definition obj_of (l : list (string * value)) : obj := list_to_map l.

(** None of the keys of these schemas is integer-like, so their entries
    are enumerated in the order of declaration. *)
Definition TestPromptWithDefaults : Schema :=
  [ ("message", mk Zod.z_string "Test message" None (VString "default message"));
    ("count", mk Zod.z_number "Test count" None (VNumber 42));
    ("enabled", mk Zod.z_boolean "Test boolean" None (VBool true));
    ("tags", mk (Zod.z_array Zod.z_string) "Test array" None
               (VArray [VString "default"; VString "tag"]));
    ("metadata", mk (Zod.z_record Zod.z_any) "Test object" None
                   (VObject {[ "key" := VString "value" ]}));
    ("optional", mk (Zod.optional Zod.z_string) "Optional parameter"
                   (Some false) VUndefined) ].

Definition TestPromptWithoutDefaults : Schema :=
  [ ("message", mk Zod.z_string "Test message" None VUndefined);
    ("optional", mk (Zod.optional Zod.z_boolean) "Optional parameter"
                   (Some false) VUndefined) ].

Definition TestPromptAllOptional : Schema :=
  [ ("message", mk (Zod.optional Zod.z_string) "Optional message"
                  (Some false) VUndefined);
    ("count", mk (Zod.optional Zod.z_number) "Optional count"
                (Some false) VUndefined) ].

(** The callback [v => v + "!"] of a transform on strings. *)
Definition exclaim (v : value) : value :=
  match v with
  | VString s => VString (s +:+ "!")
  | _ => v
  end.

End Fixtures.

(** ** The prompt classes of the test suite

    The three classes that extend [MCPPrompt] in the test suite, with their
    [generateMessages].  The text of a message is a template literal; the
    conversion of a number to a string is left abstract. *)

Module TestPrompts.

Import Fixtures.

(** One message: [{ role, content: { type, text } }]; the classes set no
    [resource]. *)
Record Message : Type := mkMessage {
  role : string;
  content_type : string;
  text : string
}.

Section Template.

(** [Number.prototype.toString] *)
Variable number_to_string : Z → string.

(** [String(v)], the conversion that a template literal applies; an array
    is joined with commas, its [undefined] and [null] elements giving the
    empty string. *)
Fixpoint to_string (v : value) : string :=
  match v with
  | VUndefined => "undefined"
  | VNull => "null"
  | VBool true => "true"
  | VBool false => "false"
  | VNumber n => number_to_string n
  | VString s => s
  | VArray l =>
      String.concat ","
        (List.map (λ x, match x with
                        | VUndefined | VNull => ""
                        | _ => to_string x
                        end) l)
  | VObject _ => "[object Object]"
  | VFunction name => "function " +:+ name +:+ "() { [native code] }"
  end.

(** [a || b] *)
Definition or_else (a b : value) : value :=
  if Zod.truthy a then a else b.

(** [a ?? b] *)
Definition nullish_else (a b : value) : value :=
  match a with
  | VUndefined | VNull => b
  | _ => a
  end.

(** [v.join(',')]: only an array has the method; on anything else the call
    throws a [TypeError]. *)
Definition join (v : value) : Promise string :=
  match v with
  | VArray _ => Resolved (to_string v)
  | _ => Rejected (OtherError "TypeError")
  end.

(** [TestPromptWithDefaults.generateMessages]; of the expressions of the
    template only the call of [join] can throw, and none has an effect. *)
Definition generateMessagesWithDefaults (args : obj) : Promise (list Message) :=
  tags ← await join (get args "tags");
  Resolved
    [ mkMessage "user" "text"
        ("Message: " +:+ to_string (get args "message")
         +:+ ", Count: " +:+ to_string (get args "count")
         +:+ ", Enabled: " +:+ to_string (get args "enabled")
         +:+ ", Tags: " +:+ tags
         +:+ ", Optional: "
         +:+ to_string (or_else (get args "optional") (VString "not provided"))) ].

(** [TestPromptWithoutDefaults.generateMessages] *)
Definition generateMessagesWithoutDefaults (args : obj)
    : Promise (list Message) :=
  Resolved
    [ mkMessage "user" "text"
        ("Message: " +:+ to_string (get args "message")
         +:+ ", Optional: "
         +:+ to_string (nullish_else (get args "optional")
                          (VString "not provided"))) ].

(** [TestPromptAllOptional.generateMessages] *)
Definition generateMessagesAllOptional (args : obj) : Promise (list Message) :=
  Resolved
    [ mkMessage "user" "text"
        ("Message: "
         +:+ to_string (or_else (get args "message") (VString "default"))
         +:+ ", Count: "
         +:+ to_string (or_else (get args "count") (VNumber 0))) ].

End Template.

End TestPrompts.

(** ** The same pipeline on a store of objects

    [getMessages] receives a reference to the caller's object, copies it
    with [{ ...args }], assigns to the copy, and zod reads the copy and
    builds its result in a further new object.  The store maps references
    to objects, so that what the pipeline does to the caller's object can
    be stated. *)

Module Store.

Abbreviation loc := positive.
Abbreviation store := (gmap loc obj).

(** The properties of the object at [l]. *)
Definition content (h : store) (l : loc) : obj := default ∅ (h !! l).

(** A new object, at a reference that is not in use. *)
Definition alloc (h : store) (o : obj) : store * loc :=
  let l := fresh (dom h) in (<[l := o]> h, l).

(** [l[key] = v] *)
Definition assign (h : store) (l : loc) (key : string) (v : value) : store :=
  <[l := <[key := v]> (content h l)]> h.

(** The body of the loop, assigning to the object at [argsWithDefaults]. *)
Definition apply_default (argsWithDefaults : loc) (h : store)
    (entry : string * Field.FieldSchema) : store :=
  let '(key, schema) := entry in
  if negb (has_key key (content h argsWithDefaults)) then
    if is_defined (Field.default schema) then
      assign h argsWithDefaults key (Field.default schema)
    else if required_not_false schema then
      match MCPPrompt.sensible_default (Zod.typeName (Field.type schema)) with
      | Some v => assign h argsWithDefaults key v
      | None => h
      end
    else h
  else h.

(** Lines 80 to 111 of [getMessages]: the final store, and the reference to
    [validatedArgs] or the issues of the thrown error.  An omitted [args] is
    a new empty object. *)
Definition resolve (schema : Schema) (h : store) (args : option loc)
    : store * (list string + loc) :=
  let '(h, args) :=
    match args with
    | Some l => (h, l)
    | None => alloc h ∅
    end in
  let '(h, argsWithDefaults) := alloc h (content h args) in
  let h := foldl (apply_default argsWithDefaults) h schema in
  match Zod.object_parse (MCPPrompt.schemaEntries schema)
          (content h argsWithDefaults) with
  | Zod.Ok o => let '(h, validatedArgs) := alloc h o in (h, inr validatedArgs)
  | Zod.ZodError issues => (h, inl issues)
  end.

End Store.

Import Fixtures.

(** * Properties *)

(** ** The scenarios of the test suite *)

Example without_defaults_no_arguments :
  MCPPrompt.resolve TestPromptWithoutDefaults ∅
  = Zod.Ok {[ "message" := VString "" ]}.
Proof. vm_compute. reflexivity. Qed.

Example with_defaults_no_arguments :
  MCPPrompt.resolve TestPromptWithDefaults ∅
  = Zod.Ok (obj_of
      [ ("message", VString "default message"); ("count", VNumber 42);
        ("enabled", VBool true);
        ("tags", VArray [VString "default"; VString "tag"]);
        ("metadata", VObject {[ "key" := VString "value" ]}) ]).
Proof. vm_compute. reflexivity. Qed.

Example with_defaults_partial :
  MCPPrompt.resolve TestPromptWithDefaults
    {[ "message" := VString "custom message" ]}
  = Zod.Ok (obj_of
      [ ("message", VString "custom message"); ("count", VNumber 42);
        ("enabled", VBool true);
        ("tags", VArray [VString "default"; VString "tag"]);
        ("metadata", VObject {[ "key" := VString "value" ]}) ]).
Proof. vm_compute. reflexivity. Qed.

Example with_defaults_invalid_count :
  MCPPrompt.resolve TestPromptWithDefaults {[ "count" := VString "invalid" ]}
  = Zod.ZodError ["count"].
Proof. vm_compute. reflexivity. Qed.

Example all_optional_no_arguments :
  MCPPrompt.resolve TestPromptAllOptional ∅ = Zod.Ok ∅.
Proof. vm_compute. reflexivity. Qed.

Example with_defaults_definition :
  MCPPrompt.arg_required <$>
    MCPPrompt.arguments (MCPPrompt.promptDefinition "n" "d" TestPromptWithDefaults)
  = [false; false; false; false; false; false].
Proof. reflexivity. Qed.

(** ** The default merge, key by key *)

Section merge_facts.

Import MCPPrompt.

Implicit Types (args : obj) (schema : Schema) (key : string)
  (f : Field.FieldSchema).

Lemma visible_lookup args key :
  visible args !! key =
    match args !! key with
    | Some v => Some v
    | None => Object_prototype !! key
    end.
Proof.
  unfold visible. rewrite lookup_union.
  by destruct (args !! key), (Object_prototype !! key).
Qed.

Lemma is_inherited_false key :
  is_inherited key = false ↔ Object_prototype !! key = None.
Proof.
  unfold is_inherited. by rewrite bool_decide_eq_false, eq_None_not_Some.
Qed.

Lemma has_key_own key args v : args !! key = Some v → has_key key args = true.
Proof.
  intros Hv. unfold has_key. rewrite visible_lookup, Hv.
  by apply bool_decide_eq_true_2.
Qed.

Lemma has_key_absent key args :
  args !! key = None → has_key key args = is_inherited key.
Proof. intros Hv. unfold has_key. by rewrite visible_lookup, Hv. Qed.

Lemma has_key_false key args :
  has_key key args = false ↔ args !! key = None ∧ is_inherited key = false.
Proof.
  destruct (args !! key) as [v|] eqn:E.
  - rewrite (has_key_own _ _ _ E). split; [done | by intros [? _]].
  - rewrite (has_key_absent _ _ E). split; [done | by intros [_ ?]].
Qed.

Lemma get_own key args v : args !! key = Some v → get args key = v.
Proof. intros Hv. unfold get. by rewrite visible_lookup, Hv. Qed.

Lemma get_absent key args :
  args !! key = None → is_inherited key = false → get args key = VUndefined.
Proof.
  intros Hv Hk%is_inherited_false. unfold get.
  by rewrite visible_lookup, Hv, Hk.
Qed.

(** A value read under a name that is not inherited and found to be other
    than [undefined] is an own property. *)
Lemma get_defined_own key args :
  is_inherited key = false → get args key ≠ VUndefined →
  args !! key = Some (get args key).
Proof.
  intros Hk Hget. destruct (args !! key) as [v|] eqn:E.
  - by rewrite (get_own _ _ _ E).
  - by rewrite (get_absent _ _ E Hk) in Hget.
Qed.

Lemma apply_default_lookup args k f key :
  apply_default args (k, f) !! key =
    if decide (k = key)
    then match args !! key with
         | Some v => Some v
         | None => if is_inherited key then None else assigned f
         end
    else args !! key.
Proof.
  unfold apply_default, assigned.
  destruct (decide (k = key)) as [->|Hne].
  - destruct (args !! key) as [v|] eqn:E.
    + by rewrite (has_key_own _ _ _ E).
    + rewrite (has_key_absent _ _ E).
      destruct (is_inherited key); cbn [negb]; [done|].
      destruct (is_defined (Field.default f)); [by rewrite lookup_insert_eq|].
      destruct (required_not_false f); [|done].
      destruct (sensible_default _); [by rewrite lookup_insert_eq | done].
  - destruct (negb (has_key k args)); [|done].
    destruct (is_defined (Field.default f)); [by rewrite lookup_insert_ne|].
    destruct (required_not_false f); [|done].
    destruct (sensible_default _); [by rewrite lookup_insert_ne | done].
Qed.

Lemma merge_cons schema args entry :
  merge (entry :: schema) args = merge schema (apply_default args entry).
Proof. done. Qed.

Lemma merge_present schema args key v :
  args !! key = Some v → merge schema args !! key = Some v.
Proof.
  revert args. induction schema as [|[k f] schema IH]; intros args Hv; [done|].
  rewrite merge_cons. apply IH. rewrite apply_default_lookup, Hv.
  by case_decide.
Qed.

Lemma merge_not_declared schema args key :
  key ∉ schema.*1 → merge schema args !! key = args !! key.
Proof.
  revert args. induction schema as [|[k f] schema IH]; intros args Hk; [done|].
  rewrite fmap_cons, not_elem_of_cons in Hk. destruct Hk as [Hne Hk].
  rewrite merge_cons, IH by done. rewrite apply_default_lookup.
  by rewrite decide_False.
Qed.

Lemma merge_lookup_ext schema args1 args2 key :
  args1 !! key = args2 !! key →
  merge schema args1 !! key = merge schema args2 !! key.
Proof.
  revert args1 args2.
  induction schema as [|[k f] schema IH]; intros args1 args2 Heq; [done|].
  rewrite !merge_cons. apply IH. rewrite !apply_default_lookup, Heq. done.
Qed.

(** A declared key that is absent from the input: a name inherited from
    [Object.prototype] is in every object and is never assigned. *)
Lemma merge_declared schema args key f :
  wf_schema schema → (key, f) ∈ schema → args !! key = None →
  merge schema args !! key = if is_inherited key then None else assigned f.
Proof.
  unfold wf_schema. revert args.
  induction schema as [|[k g] schema IH]; intros args Hnd Hin Habs.
  { by apply elem_of_nil in Hin. }
  rewrite fmap_cons in Hnd. apply NoDup_cons in Hnd as [Hk Hnd].
  rewrite merge_cons. apply elem_of_cons in Hin as [[= <- <-]|Hin].
  - rewrite merge_not_declared by done.
    rewrite apply_default_lookup, decide_True, Habs; done.
  - apply IH; [done..|]. rewrite apply_default_lookup.
    case_decide as Heq; [|done]. subst k. exfalso. apply Hk.
    apply list_elem_of_fmap. by exists (key, f).
Qed.

Lemma merge_declared_own schema args key f :
  wf_schema schema → (key, f) ∈ schema → args !! key = None →
  is_inherited key = false →
  merge schema args !! key = assigned f.
Proof.
  intros Hwf Hin Habs Hk. by rewrite (merge_declared _ _ _ _ Hwf Hin Habs), Hk.
Qed.

Lemma merge_inherited schema args key :
  args !! key = None → is_inherited key = true →
  merge schema args !! key = None.
Proof.
  revert args. induction schema as [|[k f] schema IH]; intros args Habs Hk;
    [done|].
  rewrite merge_cons. apply IH; [|done]. rewrite apply_default_lookup, Habs, Hk.
  by case_decide.
Qed.

End merge_facts.

(** ** [ZodObject.parse], key by key *)

Section object_parse_facts.

Import Zod.

Implicit Types (data o : obj) (shape : list (string * ZodType))
  (acc : result) (key : string).


Lemma parse_keys_error data shape e :
  ∃ e', foldl (λ acc kt, parse_key data kt.1 kt.2 acc) (ZodError e) shape
        = ZodError (e ++ e').
Proof.
  revert e. induction shape as [|[k t] shape IH]; intros e; cbn [foldl].
  { exists []. by rewrite app_nil_r. }
  unfold parse_key at 2. cbn [fst snd].
  destruct (parse t (get data k)); [apply IH|].
  destruct (IH (e ++ [k])) as [e' ->]. exists (k :: e').
  by rewrite <-app_assoc.
Qed.

Lemma parse_keys_refused data shape acc key t :
  (key, t) ∈ shape → parse t (get data key) = None →
  ∃ e, foldl (λ acc kt, parse_key data kt.1 kt.2 acc) acc shape = ZodError e
       ∧ key ∈ e.
Proof.
  revert acc. induction shape as [|[k t'] shape IH]; intros acc Hin Hno.
  { by apply elem_of_nil in Hin. }
  cbn [foldl]. apply elem_of_cons in Hin as [[= <- <-]|Hin]; [|by apply IH].
  unfold parse_key at 2. cbn [fst snd]. rewrite Hno.
  destruct acc as [o|e0].
  - destruct (parse_keys_error data shape [key]) as [e' ->].
    eexists; split; [done|]. set_solver.
  - destruct (parse_keys_error data shape (e0 ++ [key])) as [e' ->].
    eexists; split; [done|]. set_solver.
Qed.

(** The fold succeeds exactly when it started well and no key is refused;
    the object it returns is then known key by key. *)
Lemma parse_keys_Ok data shape o0 o :
  foldl (λ acc kt, parse_key data kt.1 kt.2 acc) (Ok o0) shape = Ok o →
  NoDup shape.*1 →
  (∀ key, key ∉ shape.*1 → o !! key = o0 !! key) ∧
  (∀ key t, (key, t) ∈ shape →
     ∃ w, parse t (get data key) = Some w ∧
          o !! key = if is_defined w || has_key key data then Some w
                     else o0 !! key).
Proof.
  revert o0. induction shape as [|[k t] shape IH]; intros o0 Hok Hnd.
  { cbn in Hok. injection Hok as <-. split; [done|].
    intros ?? Hin. by apply elem_of_nil in Hin. }
  rewrite fmap_cons in Hnd. apply NoDup_cons in Hnd as [Hk Hnd].
  cbn [foldl] in Hok. unfold parse_key at 2 in Hok. cbn [fst snd] in Hok.
  destruct (parse t (get data k)) as [w|] eqn:Hw; last first.
  { destruct (parse_keys_error data shape [k]) as [e' He'].
    rewrite He' in Hok. done. }
  apply IH in Hok as [Hout Hin]; [|done]. split.
  - intros key Hkey. rewrite fmap_cons, not_elem_of_cons in Hkey.
    destruct Hkey as [Hne Hkey]. rewrite (Hout _ Hkey).
    destruct (is_defined w || has_key k data); [|done].
    by rewrite lookup_insert_ne.
  - intros key t' Hel. apply elem_of_cons in Hel as [[= -> ->]|Hel].
    + exists w. split; [done|]. cbn [fst] in Hk. rewrite (Hout _ Hk).
      destruct (is_defined w || has_key k data); [|done].
      by rewrite lookup_insert_eq.
    + destruct (Hin _ _ Hel) as (w' & Hw' & Hlk). exists w'. split; [done|].
      rewrite Hlk. destruct (is_defined w' || has_key key data); [done|].
      destruct (is_defined w || has_key k data); [|done].
      rewrite lookup_insert_ne; [done|]. intros ->. apply Hk.
      apply list_elem_of_fmap. by exists (key, t').
Qed.

Lemma parse_keys_accepted data shape o0 :
  (∀ key t, (key, t) ∈ shape → is_Some (parse t (get data key))) →
  ∃ o, foldl (λ acc kt, parse_key data kt.1 kt.2 acc) (Ok o0) shape = Ok o.
Proof.
  revert o0. induction shape as [|[k t] shape IH]; intros o0 Hall.
  { by exists o0. }
  cbn [foldl]. unfold parse_key at 2. cbn [fst snd].
  destruct (Hall k t) as [w ->]; [left|].
  apply IH. intros key t' Hin. apply Hall. by right.
Qed.



Lemma object_parse_refused data shape key t :
  (key, t) ∈ shape → parse t (get data key) = None →
  ∃ e, object_parse shape data = ZodError e ∧ key ∈ e.
Proof. apply parse_keys_refused. Qed.

Lemma object_parse_Ok data shape o :
  object_parse shape data = Ok o → NoDup shape.*1 →
  (∀ key, key ∉ shape.*1 → o !! key = None) ∧
  (∀ key t, (key, t) ∈ shape →
     ∃ w, parse t (get data key) = Some w ∧
          o !! key = if is_defined w || has_key key data then Some w
                     else None).
Proof.
  intros Hok Hnd. destruct (parse_keys_Ok _ _ _ _ Hok Hnd) as [H1 H2].
  split; [intros key Hkey; by rewrite H1|]. intros key t Hin.
  destruct (H2 _ _ Hin) as (w & ? & ?). by exists w.
Qed.


End object_parse_facts.

Section issues_facts.

Import Zod.

Implicit Types (data o : obj) (shape : list (string * ZodType))
  (acc : result) (key : string).

(** The issues of a failed parse are the issues it started with and the
    keys of the shape that are refused. *)
Lemma parse_keys_issues data shape acc e key :
  foldl (λ acc kt, parse_key data kt.1 kt.2 acc) acc shape = ZodError e →
  key ∈ e ↔
    key ∈ (match acc with ZodError e0 => e0 | Ok _ => [] end)
    ∨ ∃ t, (key, t) ∈ shape ∧ parse t (get data key) = None.
Proof.
  revert acc. induction shape as [|[k t] shape IH]; intros acc Hfold.
  { cbn in Hfold. subst acc. split; [by left|].
    intros [?|(t & Hin & _)]; [done|]. by apply elem_of_nil in Hin. }
  cbn [foldl] in Hfold. apply IH in Hfold. rewrite Hfold. clear Hfold IH.
  assert ((∃ t0, (key, t0) ∈ (k, t) :: shape ∧ parse t0 (get data key) = None)
          ↔ (key = k ∧ parse t (get data k) = None)
            ∨ ∃ t0, (key, t0) ∈ shape ∧ parse t0 (get data key) = None) as ->.
  { split.
    - intros (t0 & Hin & Hno).
      apply elem_of_cons in Hin as [[= -> ->]|Hin]; [by left|].
      right. by exists t0.
    - intros [[-> Hno]|(t0 & Hin & Hno)].
      + exists t. split; [left|done].
      + exists t0. split; [by right|done]. }
  unfold parse_key. cbn [fst snd].
  destruct (parse t (get data k)) as [w|] eqn:Hw, acc as [o|e0].
  - intuition congruence.
  - intuition congruence.
  - rewrite list_elem_of_singleton. rewrite elem_of_nil. intuition congruence.
  - rewrite elem_of_app, list_elem_of_singleton. intuition congruence.
Qed.

Lemma NoDup_fst_functional {A} (l : list (string * A)) key (a b : A) :
  NoDup l.*1 → (key, a) ∈ l → (key, b) ∈ l → a = b.
Proof.
  induction l as [|[k c] l IH]; intros Hnd Ha Hb.
  { by apply elem_of_nil in Ha. }
  rewrite fmap_cons in Hnd. apply NoDup_cons in Hnd as [Hk Hnd].
  assert (∀ x, (k, x) ∈ l → False) as Hfresh.
  { intros x Hx. apply Hk. apply list_elem_of_fmap. by exists (k, x). }
  apply elem_of_cons in Ha as [Ha|Ha];
    apply elem_of_cons in Hb as [Hb|Hb]; simplify_eq; try done.
  - by destruct (Hfresh _ Hb).
  - by destruct (Hfresh _ Ha).
  - by apply IH.
Qed.

End issues_facts.

(** ** The validation rules *)

Section rule_facts.

Import MCPPrompt.

Implicit Types (args : obj) (schema : Schema) (key : string)
  (f : Field.FieldSchema).

Lemma schemaEntries_keys schema : (schemaEntries schema).*1 = schema.*1.
Proof.
  unfold schemaEntries. induction schema as [|[k f] schema IH]; [done|].
  cbn. by rewrite IH.
Qed.

Lemma schemaEntries_elem schema key f :
  (key, f) ∈ schema → (key, rule f) ∈ schemaEntries schema.
Proof.
  intros Hin. unfold schemaEntries. apply list_elem_of_fmap.
  by exists (key, f).
Qed.

Lemma schemaEntries_elem_inv schema key t :
  (key, t) ∈ schemaEntries schema → ∃ f, t = rule f ∧ (key, f) ∈ schema.
Proof.
  unfold schemaEntries. intros ([k f] & [= -> ->] & Hin)%list_elem_of_fmap.
  by exists f.
Qed.

Lemma rule_optional f :
  isOptional f = true → rule f = Zod.optional (Field.type f).
Proof. unfold rule. by intros ->. Qed.

Lemma rule_accepts_undefined f :
  isOptional f = true → Zod.parse (rule f) VUndefined = Some VUndefined.
Proof. intros ->%rule_optional. done. Qed.

(** A value other than [undefined] is judged by the declared type, with or
    without the wrapper. *)
Lemma rule_defined f v :
  v ≠ VUndefined → Zod.parse (rule f) v = Zod.parse (Field.type f) v.
Proof.
  intros Hv. unfold rule. destruct (isOptional f); [|done].
  by destruct v.
Qed.


Lemma is_defined_false v : is_defined v = false ↔ v = VUndefined.
Proof. by destruct v. Qed.

(** The two optionality predicates of the class: a field that the
    definition reports as not required is optional for validation, and the
    two agree exactly on the fields whose declared type refuses
    [undefined] or that have a default or [required: false]. *)
Lemma not_required_isOptional key f :
  arg_required (argument_of (key, f)) = false → isOptional f = true.
Proof.
  unfold argument_of, isOptional. cbn.
  destruct (required_not_false f), (is_defined (Field.default f)),
    (Zod.isOptional (Field.type f)); done.
Qed.

Lemma required_agrees_iff key f :
  arg_required (argument_of (key, f)) = negb (isOptional f) ↔
  Zod.isOptional (Field.type f) = false
  ∨ Field.required f = Some false ∨ is_defined (Field.default f) = true.
Proof.
  unfold argument_of, isOptional, required_not_false. cbn.
  destruct (Field.required f) as [[]|], (is_defined (Field.default f)),
    (Zod.isOptional (Field.type f)); cbn; intuition congruence.
Qed.

End rule_facts.

(** ** The claims *)

Section claims.

Import MCPPrompt.

Implicit Types (args : obj) (schema : Schema) (key : string)
  (f : Field.FieldSchema).

(** C1.  The claim is that the [required] flag of [promptDefinition] is
    [false] exactly for the fields that the validation step treats as
    optional.  The class breaks it: for a field declared with
    [z.string().optional()], no [required] and no [default],
    [promptDefinition] reports [required: true], while [getMessages]
    computes [isOptional = true] through [schema.type.isOptional()] and
    resolves the empty input without the field. *)
Theorem C1_promptDefinition_misses_type_optionality :
  let f := Field.mk (Zod.optional Zod.z_string) "Optional parameter" None
             VUndefined in
  arg_required <$> arguments (promptDefinition "p" "d" [("optional", f)])
    = [true]
  ∧ isOptional f = true
  ∧ resolve [("optional", f)] ∅ = Zod.Ok ∅.
Proof. vm_compute. done. Qed.

(** C2.  The claim is that an absent field with no default whose type
    declares optionality is left absent by the merge.  The merge does not
    ask the type: it looks at [required] and at the type tag only, while
    the validation step (line 106) calls [schema.type.isOptional()].  For
    [z.coerce.boolean()], which accepts [undefined] and is tagged
    [ZodBoolean], the validation step finds the field optional and the
    merge assigns [false] to the absent field. *)
Theorem C2_merge_ignores_type_optionality :
  let f := Field.mk Zod.coerce_boolean "flag" None VUndefined in
  Field.default f = VUndefined
  ∧ Zod.isOptional (Field.type f) = true
  ∧ isOptional f = true
  ∧ (∅ : obj) !! "flag" = None
  ∧ merge [("flag", f)] ∅ !! "flag" = Some (VBool false).
Proof. vm_compute. done. Qed.

(** The second half of the claim, that validation accepts the absence,
    fails for a field named after a member of [Object.prototype]: zod
    reads the inherited function under the absent key. *)
Example optional_field_with_inherited_name :
  let f := Field.mk (Zod.optional Zod.z_string) "s" (Some false) VUndefined in
  merge [("toString", f)] ∅ !! "toString" = None
  ∧ resolve [("toString", f)] ∅ = Zod.ZodError ["toString"].
Proof. vm_compute. done. Qed.

(** X17.  A field with no explicit default, whose name is not a member of
    [Object.prototype] and that is absent from the raw input, is left
    absent by the merge, and validation accepts its absence (the rule of
    the field returns [undefined] and the key is not set in the validated
    object), when the field has [required === false], or when its type
    accepts [undefined] and its type tag is none of the five that get a
    placeholder. *)
Theorem X17_optional_field_left_absent schema args key f :
  wf_schema schema → (key, f) ∈ schema → is_inherited key = false →
  Field.default f = VUndefined → args !! key = None →
  Field.required f = Some false
  ∨ (Zod.isOptional (Field.type f) = true
     ∧ sensible_default (Zod.typeName (Field.type f)) = None) →
  merge schema args !! key = None
  ∧ Zod.parse (rule f) (get (merge schema args) key) = Some VUndefined
  ∧ ∀ o, resolve schema args = Zod.Ok o → o !! key = None.
Proof.
  intros Hwf Hin Hkey Hdef Habs Hopt.
  assert (merge schema args !! key = None) as Hm.
  { rewrite (merge_declared_own _ _ _ _ Hwf Hin Habs Hkey). unfold assigned.
    rewrite Hdef. cbn. unfold required_not_false.
    destruct Hopt as [->|[_ ->]]; [done|]. by destruct (Field.required f) as [[]|]. }
  assert (isOptional f = true) as Hrule.
  { unfold isOptional, required_not_false.
    destruct Hopt as [->|[-> _]]; [done|]. by rewrite orb_true_r. }
  assert (get (merge schema args) key = VUndefined) as Hget
    by by apply get_absent.
  split; [done|]. split.
  { rewrite Hget. by apply rule_accepts_undefined. }
  intros o Hok. unfold resolve in Hok.
  apply object_parse_Ok in Hok as [_ Hok].
  2:{ by rewrite schemaEntries_keys. }
  destruct (Hok key (rule f)) as (w & Hw & ->); [by apply schemaEntries_elem|].
  rewrite Hget, rule_accepts_undefined in Hw by done. injection Hw as <-.
  by rewrite (has_key_absent _ _ Hm), Hkey.
Qed.

Lemma X17_optional_field_left_absent_witness :
  merge TestPromptWithoutDefaults ∅ !! "optional" = None
  ∧ Zod.parse (Zod.optional (Zod.optional Zod.z_boolean))
      (get (merge TestPromptWithoutDefaults ∅) "optional") = Some VUndefined
  ∧ ∀ o, resolve TestPromptWithoutDefaults ∅ = Zod.Ok o →
         o !! "optional" = None.
Proof.
  apply (X17_optional_field_left_absent TestPromptWithoutDefaults ∅ "optional"
           (Field.mk (Zod.optional Zod.z_boolean) "Optional parameter"
              (Some false) VUndefined)).
  - unfold wf_schema. apply (bool_decide_unpack _). vm_compute. reflexivity.
  - right. left.
  - vm_compute. reflexivity.
  - reflexivity.
  - reflexivity.
  - left. reflexivity.
Defined.


(** A [z.record] is tagged [ZodRecord], not [ZodObject]: it gets no
    placeholder, and the required field fails validation. *)
Example record_gets_no_placeholder :
  let f := Field.mk (Zod.z_record Zod.z_any) "Test object" None VUndefined in
  merge [("metadata", f)] ∅ !! "metadata" = None
  ∧ resolve [("metadata", f)] ∅ = Zod.ZodError ["metadata"].
Proof. vm_compute. done. Qed.



(** C4.  The claim is that a field with an explicit default [D] that is
    absent from the raw input resolves to [D].  The loop tests the absence
    with [key in argsWithDefaults] (line 82), which is also true of the
    names that every object inherits from [Object.prototype]: for a field
    named [toString] with the default ["d"] and the empty input, no default
    is merged, zod reads the inherited function and refuses it. *)
Theorem C4_default_skipped_for_inherited_name :
  let f := Field.mk Zod.z_string "d" None (VString "d") in
  Field.default f ≠ VUndefined
  ∧ (∅ : obj) !! "toString" = None
  ∧ merge [("toString", f)] ∅ !! "toString" = None
  ∧ get (merge [("toString", f)] ∅) "toString" = VFunction "toString"
  ∧ resolve [("toString", f)] ∅ = Zod.ZodError ["toString"].
Proof. vm_compute. done. Qed.

(** X18.  A field with an explicit default [D], whose name is not a
    member of [Object.prototype] and that is absent from the raw input,
    has exactly [D] in the merged object, whatever its type tag and its
    [required] flag. *)
Theorem X18_explicit_default_precedence schema args key f :
  wf_schema schema → (key, f) ∈ schema → is_inherited key = false →
  Field.default f ≠ VUndefined → args !! key = None →
  merge schema args !! key = Some (Field.default f).
Proof.
  intros Hwf Hin Hkey Hdef Habs.
  rewrite (merge_declared_own _ _ _ _ Hwf Hin Habs Hkey).
  unfold assigned. destruct (is_defined (Field.default f)) eqn:E; [done|].
  by apply is_defined_false in E.
Qed.

Lemma X18_explicit_default_precedence_witness :
  merge TestPromptWithDefaults {[ "message" := VString "custom message" ]}
    !! "count" = Some (VNumber 42).
Proof.
  apply (X18_explicit_default_precedence TestPromptWithDefaults
           {[ "message" := VString "custom message" ]} "count"
           (Field.mk Zod.z_number "Test count" None (VNumber 42))).
  - unfold wf_schema. apply (bool_decide_unpack _). vm_compute. reflexivity.
  - right. left.
  - vm_compute. reflexivity.
  - discriminate.
  - vm_compute. reflexivity.
Defined.

(** X19.  A declared field named after a member of [Object.prototype] and
    absent from the raw input gets neither its default nor a placeholder:
    the merged object does not own the key, and what is read under it, and
    handed to validation, is the inherited member. *)
Theorem X19_inherited_name_never_merged schema args key :
  is_inherited key = true → args !! key = None →
  merge schema args !! key = None
  ∧ Some (get (merge schema args) key) = Object_prototype !! key.
Proof.
  intros Hkey Habs.
  assert (merge schema args !! key = None) as Hm by by apply merge_inherited.
  split; [done|]. unfold get. rewrite visible_lookup, Hm.
  unfold is_inherited in Hkey. apply bool_decide_eq_true in Hkey as [v ->].
  done.
Qed.

Lemma X19_inherited_name_never_merged_witness :
  merge [("toString", Field.mk Zod.z_string "d" None (VString "d"))] ∅
    !! "toString" = None
  ∧ Some (get (merge [("toString",
                       Field.mk Zod.z_string "d" None (VString "d"))] ∅)
            "toString")
    = Object_prototype !! "toString".
Proof.
  apply (X19_inherited_name_never_merged
           [("toString", Field.mk Zod.z_string "d" None (VString "d"))]
           ∅ "toString").
  - vm_compute. reflexivity.
  - reflexivity.
Defined.

(** C5.  The merge keeps every property of the raw input as supplied, and
    gives every other key what the default rules give it on the empty
    input. *)
Theorem C5_merge_never_overwrites schema args key :
  merge schema args !! key =
    match args !! key with
    | Some v => Some v
    | None => merge schema ∅ !! key
    end.
Proof.
  destruct (args !! key) as [v|] eqn:E.
  - by apply merge_present.
  - apply merge_lookup_ext. by rewrite E, lookup_empty.
Qed.

(** When every field is supplied, the merged object is the raw input. *)
Lemma merge_full_input schema args :
  (∀ key, key ∈ schema.*1 → is_Some (args !! key)) →
  merge schema args = args.
Proof.
  intros Hall. apply map_eq. intros key.
  destruct (args !! key) as [v|] eqn:E; [by apply merge_present|].
  rewrite merge_not_declared; [done|]. intros [v Hv]%Hall. congruence.
Qed.

Lemma rule_idempotent f :
  (∀ a b, Zod.parse (Field.type f) a = Some b →
          Zod.parse (Field.type f) b = Some b) →
  ∀ a b, Zod.parse (rule f) a = Some b → Zod.parse (rule f) b = Some b.
Proof.
  intros Hid. unfold rule. destruct (isOptional f); [|done].
  intros a b. cbn. intros Hab.
  assert (b = VUndefined ∨ Zod.parse (Field.type f) a = Some b) as [->|Hb].
  { destruct a; auto. left. congruence. }
  - done.
  - destruct b; eauto.
Qed.

(** C6 as stated fails when a field type changes the value it accepts:
    with [z.string().transform(v => v + "!")], the input [{ s: "a" }]
    resolves to [{ s: "a!" }], which resolves to [{ s: "a!!" }]. *)
Lemma C6_counterexample :
  let schema :=
    [("s", Field.mk (Zod.transform Zod.z_string exclaim) "s" None VUndefined)] in
  ∃ v, resolve schema {[ "s" := VString "a" ]} = Zod.Ok v
       ∧ resolve schema v ≠ Zod.Ok v.
Proof.
  exists {[ "s" := VString "a!" ]}. split; [vm_compute; reflexivity|].
  intros H. vm_compute in H. discriminate H.
Qed.

(** C6, amended.  When every field type returns values that it parses to
    themselves (a validator, or a transformation that is idempotent),
    resolution is idempotent: the validated object of a valid input
    resolves to itself. *)
Theorem C6_resolve_idempotent schema x v :
  wf_schema schema →
  (∀ key f a b, (key, f) ∈ schema →
     Zod.parse (Field.type f) a = Some b →
     Zod.parse (Field.type f) b = Some b) →
  resolve schema x = Zod.Ok v →
  resolve schema v = Zod.Ok v.
Proof.
  intros Hwf Hid Hok. unfold resolve in *.
  assert (NoDup (schemaEntries schema).*1) as Hnd
    by by rewrite schemaEntries_keys.
  destruct (object_parse_Ok _ _ _ Hok Hnd) as [Hout Hin].
  rewrite schemaEntries_keys in Hout.
  (* what the first round says about each declared field *)
  assert (∀ key f, (key, f) ∈ schema →
            ∃ w, Zod.parse (rule f) (get (merge schema x) key) = Some w
                 ∧ get v key = w
                 ∧ v !! key = (if is_defined w || has_key key (merge schema x)
                               then Some w else None)) as Hfield.
  { intros key f Hf.
    destruct (Hin key (rule f)) as (w & Hw & Hv); [by apply schemaEntries_elem|].
    exists w. split; [done|]. split; [|done].
    destruct (is_defined w || has_key key (merge schema x)) eqn:Ec.
    - by apply get_own.
    - apply orb_false_elim in Ec as [Ew Ek]. apply is_defined_false in Ew.
      subst w. apply has_key_false in Ek as [_ Ek]. by apply get_absent. }
  (* the merge adds nothing to the validated object *)
  assert (merge schema v = v) as ->.
  { apply map_eq. intros key. destruct (v !! key) as [w|] eqn:Ev.
    { by apply merge_present. }
    destruct (decide (key ∈ schema.*1)) as [Hkey|Hkey]; last first.
    { by rewrite merge_not_declared. }
    apply list_elem_of_fmap in Hkey as ([k f] & -> & Hf). cbn in *.
    rewrite (merge_declared _ _ _ _ Hwf Hf Ev).
    destruct (is_inherited k) eqn:Ei; [done|].
    destruct (Hfield _ _ Hf) as (w & _ & _ & Hv). rewrite Ev in Hv.
    destruct (is_defined w || has_key k (merge schema x)) eqn:Ec; [done|].
    apply orb_false_elim in Ec as [_ Ec]. apply has_key_false in Ec as [Ec _].
    assert (x !! k = None) as Hx.
    { destruct (x !! k) as [u|] eqn:Ex; [|done].
      by rewrite (merge_present _ _ _ _ Ex) in Ec. }
    by rewrite (merge_declared_own _ _ _ _ Hwf Hf Hx Ei) in Ec. }
  (* every rule accepts what it returned *)
  destruct (parse_keys_accepted v (schemaEntries schema) ∅) as [o Ho].
  { intros key t (f & -> & Hf)%schemaEntries_elem_inv.
    destruct (Hfield _ _ Hf) as (w & Hw & -> & _). exists w.
    eapply rule_idempotent; [|done]. eauto. }
  unfold Zod.object_parse. rewrite Ho. f_equal.
  destruct (object_parse_Ok _ _ _ Ho Hnd) as [Hout' Hin'].
  rewrite schemaEntries_keys in Hout'.
  apply map_eq. intros key.
  destruct (decide (key ∈ schema.*1)) as [Hkey|Hkey]; last first.
  { by rewrite Hout, Hout'. }
  apply list_elem_of_fmap in Hkey as ([k f] & -> & Hf). cbn.
  destruct (Hfield _ _ Hf) as (w & Hw & Hget & Hv).
  destruct (Hin' k (rule f)) as (w' & Hw' & ->); [by apply schemaEntries_elem|].
  rewrite Hget in Hw'.
  rewrite (rule_idempotent f (λ a b, Hid k f a b Hf) _ _ Hw) in Hw'.
  injection Hw' as <-.
  rewrite Hv. destruct (is_defined w) eqn:Ew; [done|]. cbn in Hv |- *.
  destruct (has_key k (merge schema x)) eqn:Ek.
  - by rewrite (has_key_own _ _ _ Hv).
  - apply has_key_false in Ek as [_ Ek].
    by rewrite (has_key_absent _ _ Hv), Ek.
Qed.

Lemma C6_resolve_idempotent_witness :
  resolve TestPromptWithoutDefaults {[ "message" := VString "" ]}
  = Zod.Ok {[ "message" := VString "" ]}.
Proof.
  apply (C6_resolve_idempotent TestPromptWithoutDefaults ∅).
  - unfold wf_schema. apply (bool_decide_unpack _). vm_compute. reflexivity.
  - intros key f a b Hin.
    apply elem_of_cons in Hin as [[= -> ->]|Hin].
    { cbn. destruct a; intros [= <-]; reflexivity. }
    apply elem_of_cons in Hin as [[= -> ->]|Hin].
    { cbn. destruct a; intros [= <-]; reflexivity. }
    by apply elem_of_nil in Hin.
  - vm_compute. reflexivity.
Defined.




(** C8.  When the request resolves with a response that is not [ok], the
    helper rejects with the error whose message ends with the response
    status, and returns no parsed value; when the response is [ok], the
    helper returns what [response.json()] returns. *)
Theorem C8_fetch_status {RequestInit : Type}
    (global_fetch : string → option RequestInit → Promise Response)
    (url : string) (init : option RequestInit) (response : Response) :
  global_fetch url init = Resolved response →
  (ok response = false →
     fetch global_fetch url init
     = Rejected (HttpError ("HTTP error! status: " +:+ pretty (status response))))
  ∧ (ok response = true → fetch global_fetch url init = json response).
Proof.
  intros Hres. unfold fetch. rewrite Hres. cbn.
  split; intros ->; done.
Qed.

Lemma C8_fetch_status_witness :
  let response := mkResponse false 404 (Resolved VNull) in
  let global_fetch := λ (_ : string) (_ : option unit), Resolved response in
  (false = false →
     fetch global_fetch "https://example.org/" None
     = Rejected (HttpError "HTTP error! status: 404"))
  ∧ (false = true →
     fetch global_fetch "https://example.org/" None = Resolved VNull).
Proof.
  apply (C8_fetch_status (λ (_ : string) (_ : option unit),
           Resolved (mkResponse false 404 (Resolved VNull)))
           "https://example.org/" None (mkResponse false 404 (Resolved VNull))).
  reflexivity.
Defined.

(** A request that fails is passed on as it is. *)
Lemma fetch_rejected {RequestInit : Type}
    (global_fetch : string → option RequestInit → Promise Response)
    (url : string) (init : option RequestInit) (e : Error) :
  global_fetch url init = Rejected e →
  fetch global_fetch url init = Rejected e.
Proof. intros Hres. unfold fetch. by rewrite Hres. Qed.


Example undeclared_key_stripped :
  resolve TestPromptWithoutDefaults
    {[ "message" := VString "x"; "extra" := VNumber 1 ]}
  = Zod.Ok {[ "message" := VString "x" ]}.
Proof. vm_compute. reflexivity. Qed.

(** The loop on the store is the loop on the content of the copy, and it
    writes to the copy only. *)
Lemma store_apply_default h l o entry :
  h !! l = Some o →
  Store.apply_default l h entry = <[l := apply_default o entry]> h.
Proof.
  intros Hl. destruct entry as [k f].
  unfold Store.apply_default, apply_default, Store.assign, Store.content.
  rewrite Hl. cbn [default from_option id].
  destruct (negb (has_key k o)); [|by rewrite insert_id].
  destruct (is_defined (Field.default f)); [done|].
  destruct (required_not_false f); [|by rewrite insert_id].
  destruct (sensible_default _); [done | by rewrite insert_id].
Qed.

Lemma store_merge schema h l o :
  h !! l = Some o →
  foldl (Store.apply_default l) h schema = <[l := merge schema o]> h.
Proof.
  revert h o. induction schema as [|entry schema IH]; intros h o Hl.
  { cbn. by rewrite insert_id. }
  cbn [foldl]. rewrite (store_apply_default _ _ _ _ Hl).
  rewrite (IH _ (apply_default o entry)) by apply lookup_insert_eq.
  by rewrite insert_insert_eq.
Qed.

Lemma fresh_lookup (h : Store.store) : h !! fresh (dom h) = None.
Proof. apply not_elem_of_dom, is_fresh. Qed.

Lemma fresh_ne (h : Store.store) l o : h !! l = Some o → l ≠ fresh (dom h).
Proof. intros Hl ->. by rewrite fresh_lookup in Hl. Qed.

(** C9.  Resolution on the store leaves every object that existed before
    the call as it was, the caller's raw input among them; it returns a
    reference to a new object or fails, and the new object or the failure
    is the one that [resolve] computes from the schema and the content of
    the raw input alone. *)
Theorem C9_resolve_frame schema (h : Store.store) (args : Store.loc) raw :
  h !! args = Some raw →
  let '(h', r) := Store.resolve schema h (Some args) in
  (∀ l o, h !! l = Some o → h' !! l = Some o)
  ∧ match r with
    | inr validatedArgs =>
        h !! validatedArgs = None
        ∧ ∃ v, h' !! validatedArgs = Some v ∧ resolve schema raw = Zod.Ok v
    | inl issues => resolve schema raw = Zod.ZodError issues
    end.
Proof.
  intros Hargs. unfold Store.resolve, Store.alloc.
  assert (Store.content h args = raw) as ->.
  { unfold Store.content. by rewrite Hargs. }
  set (l1 := fresh (dom h)).
  rewrite (store_merge _ _ l1 raw) by apply lookup_insert_eq.
  rewrite insert_insert_eq.
  set (h2 := <[l1 := merge schema raw]> h).
  assert (Store.content h2 l1 = merge schema raw) as ->.
  { unfold Store.content, h2. by rewrite lookup_insert_eq. }
  assert (∀ l o, h !! l = Some o → h2 !! l = Some o) as Hframe.
  { intros l o Hl. unfold h2. rewrite lookup_insert_ne; [done|].
    intros <-. by apply (fresh_ne h _ _ Hl). }
  fold (resolve schema raw). destruct (resolve schema raw) as [v|issues].
  - set (l2 := fresh (dom h2)). split; [|split].
    + intros l o Hl%Hframe. rewrite lookup_insert_ne; [done|].
      intros <-. by apply (fresh_ne h2 _ _ Hl).
    + destruct (h !! l2) as [o|] eqn:E; [|done].
      apply Hframe in E. by apply fresh_ne in E.
    + exists v. by rewrite lookup_insert_eq.
  - done.
Qed.

Lemma C9_resolve_frame_witness :
  let h : Store.store := {[ 1%positive := {[ "message" := VString "x" ]} ]} in
  let '(h', r) := Store.resolve TestPromptWithoutDefaults h (Some 1%positive) in
  (∀ l o, h !! l = Some o → h' !! l = Some o)
  ∧ match r with
    | inr validatedArgs =>
        h !! validatedArgs = None
        ∧ ∃ v, h' !! validatedArgs = Some v
               ∧ resolve TestPromptWithoutDefaults {[ "message" := VString "x" ]}
                 = Zod.Ok v
    | inl issues =>
        resolve TestPromptWithoutDefaults {[ "message" := VString "x" ]}
        = Zod.ZodError issues
    end.
Proof.
  apply (C9_resolve_frame TestPromptWithoutDefaults
           {[ 1%positive := {[ "message" := VString "x" ]} ]} 1%positive
           {[ "message" := VString "x" ]}).
  vm_compute. reflexivity.
Defined.

(** ** [getMessages] *)

Section getMessages_facts.

Context {Messages : Type} (generateMessages : obj → Promise Messages).

(** An omitted argument is the empty object. *)
Lemma getMessages_no_arguments schema :
  getMessages generateMessages schema None
  = getMessages generateMessages schema (Some ∅).
Proof. done. Qed.

(** The messages are generated from the validated arguments, and only
    when validation succeeds. *)
Lemma getMessages_resolved schema args v :
  resolve schema args = Zod.Ok v →
  getMessages generateMessages schema (Some args) = generateMessages v.
Proof. unfold getMessages. cbn. by intros ->. Qed.

Lemma getMessages_rejected schema args issues :
  resolve schema args = Zod.ZodError issues →
  getMessages generateMessages schema (Some args)
  = Rejected (ZodFailure issues).
Proof. unfold getMessages. cbn. by intros ->. Qed.

End getMessages_facts.

End claims.

(** ** Further properties of the class *)


Section more_properties.

Import MCPPrompt.

Implicit Types (args : obj) (schema : Schema) (key : string)
  (f : Field.FieldSchema).

(** X1.  [promptDefinition] lists the fields in the order of
    [Object.entries(this.schema)], and for each field of the schema it has
    exactly one descriptor of that name, with the description of the field
    and [required] set exactly when [required] is not [false] and there is
    no default. *)
Theorem X1_promptDefinition_descriptors name description schema key f :
  wf_schema schema → (key, f) ∈ schema →
  arg_name <$> arguments (promptDefinition name description schema)
    = schema.*1
  ∧ filter (λ a, arg_name a = key)
      (arguments (promptDefinition name description schema))
    = [ {| arg_name := key;
           arg_description := Field.description f;
           arg_required :=
             required_not_false f && negb (is_defined (Field.default f)) |} ].
Proof.
  unfold wf_schema, promptDefinition. cbn [arguments]. intros Hnd Hin. split.
  { clear. induction schema as [|[k g] schema IH]; [done|].
    cbn. by rewrite <-IH. }
  assert (∀ l : Schema, key ∉ l.*1 →
            filter (λ a, arg_name a = key) (map argument_of l) = []) as Hnone.
  { clear. induction l as [|[k g] l IH]; [done|]. intros Hk.
    rewrite fmap_cons, not_elem_of_cons in Hk. destruct Hk as [Hne Hk].
    cbn [map]. rewrite filter_cons_False; [by apply IH|].
    unfold argument_of. cbn. intros Heq. by subst. }
  induction schema as [|[k g] schema IH]; [by apply elem_of_nil in Hin|].
  rewrite fmap_cons in Hnd. apply NoDup_cons in Hnd as [Hk Hnd].
  cbn [map]. apply elem_of_cons in Hin as [[= <- <-]|Hin].
  - rewrite filter_cons_True by done. rewrite Hnone by done.
    cbn. by destruct (required_not_false f && _).
  - rewrite filter_cons_False; [by apply IH|]. cbn. intros ->. apply Hk.
    apply list_elem_of_fmap. by exists (key, f).
Qed.

Lemma X1_promptDefinition_descriptors_witness :
  arg_name <$> arguments (promptDefinition "n" "d" TestPromptWithDefaults)
    = ["message"; "count"; "enabled"; "tags"; "metadata"; "optional"]
  ∧ filter (λ a, arg_name a = "optional")
      (arguments (promptDefinition "n" "d" TestPromptWithDefaults))
    = [ mkArgument "optional" "Optional parameter" false ].
Proof.
  apply (X1_promptDefinition_descriptors "n" "d" TestPromptWithDefaults
           "optional"
           (Field.mk (Zod.optional Zod.z_string) "Optional parameter"
              (Some false) VUndefined)).
  - unfold wf_schema. apply (bool_decide_unpack _). vm_compute. reflexivity.
  - do 5 right. left.
Defined.

(** X2.  A field that [promptDefinition] reports as not required, and
    whose name is not a member of [Object.prototype], can be left out of
    the input: when its default, if it has one, is accepted by its type, a
    failed resolution never has an issue for that field. *)
Theorem X2_not_required_may_be_omitted schema args key f :
  wf_schema schema → (key, f) ∈ schema → is_inherited key = false →
  arg_required (argument_of (key, f)) = false →
  args !! key = None →
  Field.default f = VUndefined
  ∨ is_Some (Zod.parse (Field.type f) (Field.default f)) →
  ∀ e, resolve schema args = Zod.ZodError e → key ∉ e.
Proof.
  intros Hwf Hin Hown Hreq Habs Hdef e He Hkey.
  unfold resolve, Zod.object_parse in He.
  apply (parse_keys_issues _ _ _ _ key) in He. apply He in Hkey.
  destruct Hkey as [Hkey|(t & Ht & Hno)]; [by apply elem_of_nil in Hkey|].
  apply schemaEntries_elem_inv in Ht as (g & -> & Hg).
  assert (g = f) as -> by by eapply NoDup_fst_functional.
  assert (isOptional f = true) as Hopt by by eapply not_required_isOptional.
  pose proof (merge_declared_own _ _ _ _ Hwf Hin Habs Hown) as Hm.
  unfold assigned in Hm. destruct (is_defined (Field.default f)) eqn:Ed.
  - rewrite (get_own _ _ _ Hm) in Hno.
    rewrite rule_defined in Hno by by intros Hu; rewrite Hu in Ed.
    destruct Hdef as [Hu|[w Hw]]; [by rewrite Hu in Ed | congruence].
  - unfold argument_of in Hreq. cbn in Hreq. rewrite Ed in Hreq.
    destruct (required_not_false f); [done|].
    rewrite (get_absent _ _ Hm Hown) in Hno.
    by rewrite rule_accepts_undefined in Hno.
Qed.

Lemma X2_not_required_may_be_omitted_witness :
  resolve TestPromptWithDefaults {[ "count" := VString "invalid" ]}
    = Zod.ZodError ["count"]
  ∧ "message" ∉ ["count"].
Proof.
  assert (resolve TestPromptWithDefaults {[ "count" := VString "invalid" ]}
          = Zod.ZodError ["count"]) as He by (vm_compute; reflexivity).
  split; [exact He|].
  apply (X2_not_required_may_be_omitted TestPromptWithDefaults
           {[ "count" := VString "invalid" ]} "message"
           (Field.mk Zod.z_string "Test message" None
              (VString "default message"))).
  - unfold wf_schema. apply (bool_decide_unpack _). vm_compute. reflexivity.
  - left.
  - vm_compute. reflexivity.
  - reflexivity.
  - vm_compute. reflexivity.
  - right. eexists. reflexivity.
  - exact He.
Defined.

(** X3.  The [required] flag of [promptDefinition] is the negation of the
    optionality that [getMessages] computes exactly for the fields that
    have [required: false], or a default, or a type that refuses
    [undefined]. *)
Theorem X3_required_flag_agreement key f :
  arg_required (argument_of (key, f)) = negb (isOptional f) ↔
  Zod.isOptional (Field.type f) = false
  ∨ Field.required f = Some false ∨ Field.default f ≠ VUndefined.
Proof.
  assert (Field.default f ≠ VUndefined ↔ is_defined (Field.default f) = true)
    as ->.
  { destruct (Field.default f); cbn; intuition congruence. }
  unfold argument_of, isOptional, required_not_false. cbn.
  destruct (Field.required f) as [[]|], (is_defined (Field.default f)),
    (Zod.isOptional (Field.type f)); cbn; intuition congruence.
Qed.




(** X6.  When no field is named after a member of [Object.prototype] and
    every field type returns the value it accepts unchanged, the validated
    object is the merged object without the keys that are not in the
    schema. *)
Theorem X6_validated_is_merged_stripped schema args o :
  wf_schema schema →
  (∀ key, key ∈ schema.*1 → is_inherited key = false) →
  (∀ key f a b, (key, f) ∈ schema →
     Zod.parse (Field.type f) a = Some b → b = a) →
  resolve schema args = Zod.Ok o →
  o = filter (λ kv, kv.1 ∈ schema.*1) (merge schema args).
Proof.
  intros Hwf Hown Hval Hok. unfold resolve in Hok.
  apply object_parse_Ok in Hok as [Hout Hin];
    [|by rewrite schemaEntries_keys].
  rewrite schemaEntries_keys in Hout.
  apply map_eq. intros key.
  destruct (decide (key ∈ schema.*1)) as [Hkey|Hkey]; last first.
  { rewrite Hout by done. symmetry. apply map_lookup_filter_None.
    right. intros v _. done. }
  pose proof (Hown _ Hkey) as Hk.
  pose proof Hkey as Hkey'.
  apply list_elem_of_fmap in Hkey' as ([k f] & -> & Hf). cbn in *.
  destruct (Hin k (rule f)) as (w & Hw & ->); [by apply schemaEntries_elem|].
  assert (w = get (merge schema args) k) as ->.
  { unfold rule in Hw. destruct (isOptional f); [|by eapply Hval].
    cbn in Hw. destruct (get (merge schema args) k) eqn:Eg;
      try (by eapply Hval); congruence. }
  destruct (merge schema args !! k) as [v|] eqn:Em.
  - rewrite (has_key_own _ _ _ Em), orb_true_r, (get_own _ _ _ Em).
    symmetry. by apply map_lookup_filter_Some.
  - rewrite (has_key_absent _ _ Em), Hk, (get_absent _ _ Em Hk). cbn.
    symmetry. apply map_lookup_filter_None. by left.
Qed.

Lemma X6_validated_is_merged_stripped_witness :
  ({[ "message" := VString "x" ]} : obj)
  = filter (λ kv, kv.1 ∈ TestPromptWithoutDefaults.*1)
      (merge TestPromptWithoutDefaults
         {[ "message" := VString "x"; "extra" := VNumber 1 ]}).
Proof.
  apply (X6_validated_is_merged_stripped TestPromptWithoutDefaults
           {[ "message" := VString "x"; "extra" := VNumber 1 ]}).
  - unfold wf_schema. apply (bool_decide_unpack _). vm_compute. reflexivity.
  - intros key Hkey. cbn in Hkey.
    apply elem_of_cons in Hkey as [->|Hkey]; [vm_compute; reflexivity|].
    apply elem_of_cons in Hkey as [->|Hkey]; [vm_compute; reflexivity|].
    by apply elem_of_nil in Hkey.
  - intros key f a b Hin.
    apply elem_of_cons in Hin as [[= -> ->]|Hin].
    { cbn. destruct a; intros [= <-]; reflexivity. }
    apply elem_of_cons in Hin as [[= -> ->]|Hin].
    { cbn. destruct a; intros [= <-]; reflexivity. }
    by apply elem_of_nil in Hin.
  - vm_compute. reflexivity.
Defined.

(** X7.  When the input has every declared key, the merge changes
    nothing: no default and no placeholder is used. *)
Theorem X7_full_input_bypasses_defaults schema args :
  (∀ key, key ∈ schema.*1 → is_Some (args !! key)) →
  merge schema args = args.
Proof. apply merge_full_input. Qed.

Lemma X7_full_input_bypasses_defaults_witness :
  merge TestPromptWithoutDefaults
    {[ "message" := VString "custom message"; "optional" := VBool true ]}
  = {[ "message" := VString "custom message"; "optional" := VBool true ]}.
Proof.
  apply (X7_full_input_bypasses_defaults TestPromptWithoutDefaults).
  intros key Hkey. cbn in Hkey.
  apply elem_of_cons in Hkey as [->|Hkey]; [vm_compute; eauto|].
  apply elem_of_cons in Hkey as [->|Hkey]; [vm_compute; eauto|].
  by apply elem_of_nil in Hkey.
Defined.

Lemma merge_merge schema args :
  merge schema (merge schema args) = merge schema args.
Proof.
  apply map_eq. intros key.
  destruct (merge schema args !! key) as [v|] eqn:E.
  { by apply merge_present. }
  rewrite <-E. apply merge_lookup_ext. rewrite E.
  destruct (args !! key) as [v|] eqn:Ea; [|done].
  by rewrite (merge_present _ _ _ _ Ea) in E.
Qed.

(** X8.  Merging twice is merging once, so passing the merged object (the
    input with the defaults and placeholders written out) resolves as the
    input itself does. *)
Theorem X8_merge_idempotent schema args :
  merge schema (merge schema args) = merge schema args
  ∧ resolve schema (merge schema args) = resolve schema args.
Proof.
  split; [apply merge_merge|]. unfold resolve. by rewrite merge_merge.
Qed.

(** X9.  The merge only adds: the merged object extends the input, and
    every key it adds is a declared key. *)
Theorem X9_merge_extends_input schema args :
  args ⊆ merge schema args
  ∧ dom (merge schema args) ⊆ dom args ∪ list_to_set schema.*1.
Proof.
  split.
  - apply map_subseteq_spec. intros key v. apply merge_present.
  - intros key [v Hv]%elem_of_dom. apply elem_of_union.
    destruct (decide (key ∈ schema.*1)) as [Hkey|Hkey].
    + right. by apply elem_of_list_to_set.
    + left. apply elem_of_dom. exists v.
      by rewrite <-(merge_not_declared _ _ _ Hkey).
Qed.

Lemma merge_permutation schema schema' args :
  wf_schema schema → schema ≡ₚ schema' →
  merge schema args = merge schema' args.
Proof.
  intros Hwf Hperm.
  assert (wf_schema schema') as Hwf'.
  { unfold wf_schema in *. by rewrite <-Hperm. }
  apply map_eq. intros key.
  destruct (args !! key) as [v|] eqn:E.
  { by rewrite !(merge_present _ _ _ _ E). }
  destruct (decide (key ∈ schema.*1)) as [Hkey|Hkey].
  - apply list_elem_of_fmap in Hkey as ([k f] & -> & Hf). cbn.
    rewrite (merge_declared _ _ _ _ Hwf Hf E).
    rewrite Hperm in Hf. by rewrite (merge_declared _ _ _ _ Hwf' Hf E).
  - rewrite merge_not_declared by done. rewrite Hperm in Hkey.
    by rewrite merge_not_declared.
Qed.

(** X10.  The merged object does not depend on the order in which the
    fields are declared. *)
Theorem X10_merge_order_independent schema schema' args :
  wf_schema schema → schema ≡ₚ schema' →
  merge schema args = merge schema' args.
Proof. apply merge_permutation. Qed.

Lemma X10_merge_order_independent_witness :
  merge TestPromptWithoutDefaults ∅ = merge (reverse TestPromptWithoutDefaults) ∅.
Proof.
  apply (X10_merge_order_independent TestPromptWithoutDefaults
           (reverse TestPromptWithoutDefaults) ∅).
  - unfold wf_schema. apply (bool_decide_unpack _). vm_compute. reflexivity.
  - symmetry. apply reverse_Permutation.
Defined.

Lemma resolve_permutation_Ok schema schema' args o :
  wf_schema schema → schema ≡ₚ schema' →
  resolve schema args = Zod.Ok o → resolve schema' args = Zod.Ok o.
Proof.
  intros Hwf Hperm Hok.
  assert (wf_schema schema') as Hwf'.
  { unfold wf_schema in *. by rewrite <-Hperm. }
  unfold resolve in *. rewrite <-(merge_permutation _ _ _ Hwf Hperm).
  set (data := merge schema args) in *.
  assert (∀ key f, (key, f) ∈ schema →
            is_Some (Zod.parse (rule f) (get data key))) as Hall.
  { intros key f Hf. destruct (Zod.parse (rule f) (get data key)) eqn:E; [done|].
    destruct (object_parse_refused data (schemaEntries schema) key (rule f))
      as (e & He & _); [by apply schemaEntries_elem|done|]. congruence. }
  destruct (parse_keys_accepted data (schemaEntries schema') ∅) as [o' Ho'].
  { intros key t (f & -> & Hf)%schemaEntries_elem_inv. apply Hall.
    by rewrite Hperm. }
  unfold Zod.object_parse. rewrite Ho'. f_equal.
  apply object_parse_Ok in Hok as [Hout Hin];
    [|by rewrite schemaEntries_keys].
  apply object_parse_Ok in Ho' as [Hout' Hin'];
    [|by rewrite schemaEntries_keys].
  rewrite schemaEntries_keys in Hout, Hout'.
  apply map_eq. intros key.
  destruct (decide (key ∈ schema.*1)) as [Hkey|Hkey].
  - apply list_elem_of_fmap in Hkey as ([k f] & -> & Hf). cbn.
    destruct (Hin k (rule f)) as (w & Hw & ->); [by apply schemaEntries_elem|].
    destruct (Hin' k (rule f)) as (w' & Hw' & ->).
    { apply schemaEntries_elem. by rewrite <-Hperm. }
    rewrite Hw in Hw'. by injection Hw' as <-.
  - rewrite Hout by done. rewrite Hperm in Hkey. by rewrite Hout'.
Qed.

(** X11.  Neither does the validated object: resolution with the fields
    declared in another order succeeds on the same inputs, with the same
    object. *)
Theorem X11_resolve_order_independent schema schema' args o :
  wf_schema schema → schema ≡ₚ schema' →
  resolve schema args = Zod.Ok o ↔ resolve schema' args = Zod.Ok o.
Proof.
  intros Hwf Hperm. split; [by apply resolve_permutation_Ok|].
  apply resolve_permutation_Ok; [|done].
  unfold wf_schema in *. by rewrite <-Hperm.
Qed.

Lemma X11_resolve_order_independent_witness :
  resolve TestPromptWithoutDefaults ∅ = Zod.Ok {[ "message" := VString "" ]}
  ↔ resolve (reverse TestPromptWithoutDefaults) ∅
    = Zod.Ok {[ "message" := VString "" ]}.
Proof.
  apply (X11_resolve_order_independent TestPromptWithoutDefaults
           (reverse TestPromptWithoutDefaults) ∅).
  - unfold wf_schema. apply (bool_decide_unpack _). vm_compute. reflexivity.
  - symmetry. apply reverse_Permutation.
Defined.



(** X13.  The outcome of the [fetch] helper, case by case: it resolves
    only with what [json()] of an [ok] response resolves with; it rejects
    with the failure of the request, with the HTTP error of a response that
    is not [ok], or with the failure of [json()] of an [ok] response. *)
Theorem X13_fetch_outcomes {RequestInit : Type}
    (global_fetch : string → option RequestInit → Promise Response)
    (url : string) (init : option RequestInit) :
  (∀ v, fetch global_fetch url init = Resolved v ↔
        ∃ response, global_fetch url init = Resolved response
                    ∧ ok response = true ∧ json response = Resolved v)
  ∧ (∀ e, fetch global_fetch url init = Rejected e ↔
        global_fetch url init = Rejected e
        ∨ (∃ response, global_fetch url init = Resolved response
             ∧ ok response = false
             ∧ e = HttpError ("HTTP error! status: "
                              +:+ pretty (status response)))
        ∨ (∃ response, global_fetch url init = Resolved response
             ∧ ok response = true ∧ json response = Rejected e)).
Proof.
  unfold fetch. destruct (global_fetch url init) as [response|e0]; cbn.
  - destruct (ok response) eqn:Eok; cbn.
    + split.
      * intros v. split; [by exists response|].
        by intros (r & [= <-] & _ & Hj).
      * intros e. split.
        -- intros Hj. right. right. by exists response.
        -- intros [|[(r & [= <-] & ? & _)|(r & [= <-] & _ & Hj)]];
             congruence.
    + split.
      * intros v. split; [done|]. intros (r & [= <-] & ? & _). congruence.
      * intros e. split.
        -- intros [= <-]. right. left. by exists response.
        -- intros [|[(r & [= <-] & _ & ->)|(r & [= <-] & ? & _)]];
             congruence.
  - split.
    + intros v. split; [done|]. by intros (r & ? & _).
    + intros e. split.
      * intros [= ->]. by left.
      * intros [|[(r & ? & _)|(r & ? & _)]]; congruence.
Qed.

(** An accepted array is returned as an array. *)
Lemma z_array_parse_inv t v w :
  Zod.parse (Zod.z_array t) v = Some w → ∃ l, w = VArray l.
Proof.
  cbn. destruct v; try done. destruct (mapM _ _) as [l'|]; [|done].
  intros [= <-]. by exists l'.
Qed.

(** X14.  [TestPromptWithDefaults]: unless the input holds [undefined]
    under [tags], the validated [tags] is an array, so the call of [join]
    in [generateMessages] does not throw: [getMessages] rejects with the
    validation error or resolves with one [user] text message. *)
Theorem X14_with_defaults_join_is_safe (number_to_string : Z → string) args :
  args !! "tags" ≠ Some VUndefined →
  (∃ issues,
     getMessages (TestPrompts.generateMessagesWithDefaults number_to_string)
       TestPromptWithDefaults (Some args) = Rejected (ZodFailure issues))
  ∨ (∃ m,
     getMessages (TestPrompts.generateMessagesWithDefaults number_to_string)
       TestPromptWithDefaults (Some args) = Resolved [m]
     ∧ TestPrompts.role m = "user" ∧ TestPrompts.content_type m = "text").
Proof.
  intros Htags. unfold getMessages. cbn [from_option id].
  destruct (resolve TestPromptWithDefaults args) as [o|issues] eqn:Hres;
    [right | by left; eexists].
  set (f := Field.mk (Zod.z_array Zod.z_string) "Test array" None
              (VArray [VString "default"; VString "tag"])).
  assert (wf_schema TestPromptWithDefaults) as Hwf.
  { unfold wf_schema. apply (bool_decide_unpack _). vm_compute. reflexivity. }
  assert (("tags", f) ∈ TestPromptWithDefaults) as Hin by (do 3 right; left).
  unfold resolve in Hres.
  apply object_parse_Ok in Hres as [_ Hfield];
    [|by rewrite schemaEntries_keys].
  destruct (Hfield "tags" (rule f)) as (w & Hw & Ho);
    [by apply schemaEntries_elem|].
  assert (∃ l, w = VArray l) as [l ->].
  { change (rule f) with (Zod.optional (Zod.z_array Zod.z_string)) in Hw.
    destruct (args !! "tags") as [v|] eqn:Ea.
    - rewrite (get_own _ _ _ (merge_present _ _ _ _ Ea)) in Hw.
      assert (v ≠ VUndefined) as Hv by congruence.
      destruct v; try done; by apply z_array_parse_inv in Hw.
    - assert (is_inherited "tags" = false) as Hk by (vm_compute; reflexivity).
      pose proof (merge_declared_own _ _ _ _ Hwf Hin Ea Hk) as Hm.
      change (assigned f)
        with (Some (VArray [VString "default"; VString "tag"])) in Hm.
      rewrite (get_own _ _ _ Hm) in Hw. cbn in Hw.
      injection Hw as <-. eauto. }
  cbn in Ho.
  unfold TestPrompts.generateMessagesWithDefaults.
  rewrite (get_own _ _ _ Ho). cbn.
  eexists. split; [reflexivity|]. done.
Qed.

Lemma X14_with_defaults_join_is_safe_witness :
  (∃ issues,
     getMessages (TestPrompts.generateMessagesWithDefaults pretty)
       TestPromptWithDefaults (Some ∅) = Rejected (ZodFailure issues))
  ∨ (∃ m,
     getMessages (TestPrompts.generateMessagesWithDefaults pretty)
       TestPromptWithDefaults (Some ∅) = Resolved [m]
     ∧ TestPrompts.role m = "user" ∧ TestPrompts.content_type m = "text").
Proof.
  apply (X14_with_defaults_join_is_safe pretty ∅).
  vm_compute. discriminate.
Defined.

(** With [undefined] under [tags] the default is not applied and the
    optional rule accepts the value: [join] is called on [undefined]. *)
Example with_defaults_tags_undefined :
  getMessages (TestPrompts.generateMessagesWithDefaults pretty)
    TestPromptWithDefaults (Some {[ "tags" := VUndefined ]})
  = Rejected (OtherError "TypeError").
Proof. vm_compute. reflexivity. Qed.

(** The first test of the suite: no arguments, explicit defaults. *)
Example with_defaults_no_arguments_text :
  getMessages (TestPrompts.generateMessagesWithDefaults pretty)
    TestPromptWithDefaults None
  = Resolved
      [ TestPrompts.mkMessage "user" "text"
          "Message: default message, Count: 42, Enabled: true, Tags: default,tag, Optional: not provided" ].
Proof. vm_compute. reflexivity. Qed.

Example without_defaults_no_arguments_text :
  getMessages (TestPrompts.generateMessagesWithoutDefaults pretty)
    TestPromptWithoutDefaults None
  = Resolved
      [ TestPrompts.mkMessage "user" "text"
          "Message: , Optional: not provided" ].
Proof. vm_compute. reflexivity. Qed.

Example all_optional_partial_text :
  getMessages (TestPrompts.generateMessagesAllOptional pretty)
    TestPromptAllOptional (Some {[ "message" := VString "custom" ]})
  = Resolved
      [ TestPrompts.mkMessage "user" "text" "Message: custom, Count: 0" ].
Proof. vm_compute. reflexivity. Qed.

Lemma get_defined_has_key key args :
  get args key ≠ VUndefined → has_key key args = true.
Proof.
  unfold get, has_key. destruct (visible args !! key) as [v|]; [|done].
  intros _. apply bool_decide_eq_true_2. eauto.
Qed.

(** X15.  What the handler can rely on for a field that validation does
    not treat as optional: after a successful resolution the validated
    object has the key, and its value is what the declared type returned
    for the value read under the key, which is not [undefined]; unless the
    key is the name of a member of [Object.prototype], that value is an
    own property of the merged object, supplied or merged in. *)
Theorem X15_required_field_is_present schema args key f o :
  wf_schema schema → (key, f) ∈ schema → isOptional f = false →
  resolve schema args = Zod.Ok o →
  get (merge schema args) key ≠ VUndefined
  ∧ (is_inherited key = false →
     merge schema args !! key = Some (get (merge schema args) key))
  ∧ ∃ w, Zod.parse (Field.type f) (get (merge schema args) key) = Some w
         ∧ o !! key = Some w.
Proof.
  intros Hwf Hin Hopt Hok. unfold resolve in Hok.
  apply object_parse_Ok in Hok as [_ Hfield];
    [|by rewrite schemaEntries_keys].
  destruct (Hfield key (rule f)) as (w & Hw & Ho);
    [by apply schemaEntries_elem|].
  unfold rule in Hw. rewrite Hopt in Hw.
  unfold isOptional in Hopt.
  apply orb_false_elim in Hopt as [Hopt _].
  apply orb_false_elim in Hopt as [_ Hty].
  unfold Zod.isOptional in Hty. apply bool_decide_eq_false in Hty.
  assert (get (merge schema args) key ≠ VUndefined) as Hget.
  { intros Hu. rewrite Hu in Hw. destruct Hty. by rewrite Hw. }
  split; [done|]. split.
  { intros Hk. by apply get_defined_own. }
  exists w. split; [done|].
  by rewrite Ho, (get_defined_has_key _ _ Hget), orb_true_r.
Qed.

Lemma X15_required_field_is_present_witness :
  get (merge TestPromptWithoutDefaults ∅) "message" ≠ VUndefined
  ∧ (is_inherited "message" = false →
     merge TestPromptWithoutDefaults ∅ !! "message"
     = Some (get (merge TestPromptWithoutDefaults ∅) "message"))
  ∧ ∃ w, Zod.parse Zod.z_string (get (merge TestPromptWithoutDefaults ∅) "message")
         = Some w
         ∧ ({[ "message" := VString "" ]} : obj) !! "message" = Some w.
Proof.
  apply (X15_required_field_is_present TestPromptWithoutDefaults ∅ "message"
           (Field.mk Zod.z_string "Test message" None VUndefined)).
  - unfold wf_schema. apply (bool_decide_unpack _). vm_compute. reflexivity.
  - left.
  - reflexivity.
  - vm_compute. reflexivity.
Defined.

(** For a field named after a member of [Object.prototype] the value can be
    the inherited one: a required [z.function()] field named [toString]
    resolves on the empty input, with the built-in function. *)
Example required_field_with_inherited_name :
  let f := Field.mk Zod.z_function "f" None VUndefined in
  isOptional f = false
  ∧ merge [("toString", f)] ∅ !! "toString" = None
  ∧ resolve [("toString", f)] ∅
    = Zod.Ok {[ "toString" := VFunction "toString" ]}.
Proof. vm_compute. done. Qed.

(** Resolution on the store, for a reference to an existing object. *)
Lemma store_resolve_spec schema (h : Store.store) (args : Store.loc) raw :
  h !! args = Some raw →
  (∀ l o, h !! l = Some o →
     (Store.resolve schema h (Some args)).1 !! l = Some o)
  ∧ match (Store.resolve schema h (Some args)).2 with
    | inr validatedArgs =>
        h !! validatedArgs = None
        ∧ ∃ v, (Store.resolve schema h (Some args)).1 !! validatedArgs = Some v
               ∧ resolve schema raw = Zod.Ok v
    | inl issues => resolve schema raw = Zod.ZodError issues
    end.
Proof.
  intros Hargs. unfold Store.resolve, Store.alloc.
  assert (Store.content h args = raw) as ->.
  { unfold Store.content. by rewrite Hargs. }
  set (l1 := fresh (dom h)).
  rewrite (store_merge _ _ l1 raw) by apply lookup_insert_eq.
  rewrite insert_insert_eq.
  set (h2 := <[l1 := merge schema raw]> h).
  assert (Store.content h2 l1 = merge schema raw) as ->.
  { unfold Store.content, h2. by rewrite lookup_insert_eq. }
  assert (∀ l o, h !! l = Some o → h2 !! l = Some o) as Hframe.
  { intros l o Hl. unfold h2. rewrite lookup_insert_ne; [done|].
    intros <-. by apply (fresh_ne h _ _ Hl). }
  fold (resolve schema raw). destruct (resolve schema raw) as [v|issues]; cbn.
  - split; [|split].
    + intros l o Hl%Hframe. rewrite lookup_insert_ne; [done|].
      intros <-. by apply (fresh_ne h2 _ _ Hl).
    + destruct (h !! fresh (dom h2)) as [o|] eqn:E; [|done].
      apply Hframe in E. by apply fresh_ne in E.
    + exists v. by rewrite lookup_insert_eq.
  - done.
Qed.

(** X16.  A call without arguments on the store: the default parameter is
    a new empty object, every object that existed keeps its content, and
    the outcome is that of resolving the empty input. *)
Theorem X16_no_arguments_on_the_store schema (h : Store.store) :
  (∀ l o, h !! l = Some o → (Store.resolve schema h None).1 !! l = Some o)
  ∧ match (Store.resolve schema h None).2 with
    | inr validatedArgs =>
        h !! validatedArgs = None
        ∧ ∃ v, (Store.resolve schema h None).1 !! validatedArgs = Some v
               ∧ resolve schema ∅ = Zod.Ok v
    | inl issues => resolve schema ∅ = Zod.ZodError issues
    end.
Proof.
  set (l0 := fresh (dom h)). set (h0 := <[l0 := (∅ : obj)]> h).
  assert (Store.resolve schema h None = Store.resolve schema h0 (Some l0))
    as -> by done.
  assert (∀ l o, h !! l = Some o → h0 !! l = Some o) as Hframe.
  { intros l o Hl. unfold h0. rewrite lookup_insert_ne; [done|].
    intros <-. by apply (fresh_ne h _ _ Hl). }
  destruct (store_resolve_spec schema h0 l0 ∅) as [H1 H2].
  { apply lookup_insert_eq. }
  split; [by intros l o Hl%Hframe%H1|].
  destruct (Store.resolve schema h0 (Some l0)).2 as [issues|validatedArgs];
    [done|].
  destruct H2 as [Hnew Hv]. split; [|done].
  destruct (h !! validatedArgs) as [o|] eqn:E; [|done].
  apply Hframe in E. congruence.
Qed.

End more_properties.
